(** * FreeRTOS SMP scheduler: the behaviour exercised by the SMP target tests

    The kernel scheduler ([tasks.c]) is not part of this tree; only the
    target tests under [Test/Target/tests/smp] are.  The scheduler is
    therefore modelled from its specification (core-run-table, ready lists,
    core-assignment engine, scheduler lock, tick driver), and the test
    programs are read against it.  Task states are derived from the
    collections a task is in, the way [eTaskGetState] derives them. *)

From Stdlib Require Import Arith Lia List Bool ZArith.
Import ListNotations.

(* ================================================================== *)
(** ** Data model *)

Abbreviation TaskHandle_t := nat (only parsing).

Inductive eTaskState := eRunning | eReady | eBlocked | eSuspended | eDeleted.

(** Modelled from the spec: the Task Control Block (spec §3): priority
    ([effective_priority]), base priority and the [preemption_disabled]
    flag.  The state and the assigned core are not stored: they are read off
    the collection the task is in (see [eTaskGetState]). *)
Record TCB_t := mkTCB {
  uxPriority : nat;
  uxBasePriority : nat;
  xPreemptionDisable : bool
}.

Definition xDefaultTCB : TCB_t := mkTCB 0 0 false.

(** Modelled from the spec: the operations a task can request (spec §6). A
    handle of [None] denotes the calling task (the [handle_or_self] call
    shape of the spec, used with [NULL] by the tests). *)
Inductive op :=
| vTaskResume (h : TaskHandle_t)
| vTaskSuspend (h : option TaskHandle_t)
| vTaskDelete (h : option TaskHandle_t)
| vTaskPrioritySet (h : option TaskHandle_t) (p : nat)
| vTaskDisablePreemption (h : option TaskHandle_t)
| vTaskEnablePreemption (h : option TaskHandle_t)
| vTaskDelay (ticks : nat)
| taskYIELD
| xTaskIncrementTick.

(** Modelled from the spec: the scheduler aggregate (spec §3, §9).
    - [pxTCBs]: the TCB store, indexed by handle;
    - [pxCurrentTCBs]: the core-run-table, [None] for a core running idle;
    - [xReadyTasks]: the ready-list set, kept as one arrival-ordered list;
      the queue of level [p] is the sub-sequence of priority [p]
      ([ready_queue]), so appending realises "insert at the back";
    - [xDelayedTasks]: blocked tasks with their [wake_tick];
    - [xSuspendedTasks], [xTasksWaitingTermination];
    - [uxSchedulerSuspended]: [suspend_depth];
    - [xPendingOps]: the deferred-operations log, in arrival order. *)
Record Sched := mkSched {
  pxTCBs : list TCB_t;
  pxCurrentTCBs : list (option TaskHandle_t);
  xReadyTasks : list TaskHandle_t;
  xDelayedTasks : list (TaskHandle_t * nat);
  xSuspendedTasks : list TaskHandle_t;
  xTasksWaitingTermination : list TaskHandle_t;
  xTickCount : nat;
  uxSchedulerSuspended : nat;
  xPendingOps : list (TaskHandle_t * op)
}.

Definition tcb (s : Sched) (t : TaskHandle_t) : TCB_t := nth t (pxTCBs s) xDefaultTCB.
Definition prio (s : Sched) (t : TaskHandle_t) : nat := uxPriority (tcb s t).
Definition preempt_disabled (s : Sched) (t : TaskHandle_t) : bool :=
  xPreemptionDisable (tcb s t).

Definition memb (t : TaskHandle_t) (l : list TaskHandle_t) : bool :=
  existsb (Nat.eqb t) l.

Definition running_tasks (cores : list (option TaskHandle_t)) : list TaskHandle_t :=
  flat_map (fun o => match o with Some t => [t] | None => [] end) cores.

Definition ready_queue (s : Sched) (p : nat) : list TaskHandle_t :=
  filter (fun t => Nat.eqb (prio s t) p) (xReadyTasks s).

(** Modelled from the spec: [task_state] (spec §6), i.e. [eTaskGetState]:
    Running when the task occupies a core, otherwise the collection it is
    in; a task found in no collection reads as deleted. *)
Definition eTaskGetState (s : Sched) (t : TaskHandle_t) : eTaskState :=
  if memb t (running_tasks (pxCurrentTCBs s)) then eRunning
  else if memb t (xReadyTasks s) then eReady
  else if existsb (fun d => Nat.eqb t (fst d)) (xDelayedTasks s) then eBlocked
  else if memb t (xSuspendedTasks s) then eSuspended
  else eDeleted.

(* ================================================================== *)
(** ** Core-assignment engine (spec §4.2) *)

(** Step 1: a core is eligible unless the task on it has preemption
    disabled (a task on a core is Running by [eTaskGetState]). *)
Definition core_eligible (s : Sched) (slot : option TaskHandle_t) : bool :=
  match slot with
  | None => true
  | Some t => negb (preempt_disabled s t)
  end.

Definition eligible_tasks (s : Sched) : list TaskHandle_t :=
  running_tasks (filter (core_eligible s) (pxCurrentTCBs s)).

Definition eligible_count (s : Sched) : nat :=
  length (filter (core_eligible s) (pxCurrentTCBs s)).

(** Stable insertion by descending priority: [t] goes after every task of
    strictly higher priority and before those of equal or lower priority. *)
Fixpoint insert_desc (s : Sched) (t : TaskHandle_t) (l : list TaskHandle_t) : list TaskHandle_t :=
  match l with
  | [] => [t]
  | u :: l' => if Nat.leb (prio s u) (prio s t) then t :: u :: l'
               else u :: insert_desc s t l'
  end.

Definition sort_desc (s : Sched) (l : list TaskHandle_t) : list TaskHandle_t :=
  fold_right (insert_desc s) [] l.

(** Step 2, candidates: the tasks on eligible cores (core order) before the
    ready list (arrival order), so that at equal priority a task keeps its
    core and queued tasks are taken FIFO. *)
Definition candidates (s : Sched) : list TaskHandle_t :=
  eligible_tasks s ++ xReadyTasks s.

Definition chosen (s : Sched) : list TaskHandle_t :=
  firstn (eligible_count s) (sort_desc s (candidates s)).

(** Placement: an eligible core keeps its task if that task is chosen,
    otherwise takes the next chosen task still without a core, or idles
    (step 3); ineligible cores are left alone. *)
Fixpoint place (s : Sched) (ch : list TaskHandle_t) (slots : list (option TaskHandle_t))
  (todo : list TaskHandle_t) : list (option TaskHandle_t) :=
  match slots with
  | [] => []
  | sl :: rest =>
      if core_eligible s sl then
        match sl with
        | Some t =>
            if memb t ch then Some t :: place s ch rest todo
            else match todo with
                 | [] => None :: place s ch rest []
                 | x :: todo' => Some x :: place s ch rest todo'
                 end
        | None =>
            match todo with
            | [] => None :: place s ch rest []
            | x :: todo' => Some x :: place s ch rest todo'
            end
        end
      else sl :: place s ch rest todo
  end.

(** One evaluation of the engine: chosen tasks leave the ready list, tasks
    that lose their core go to the back of the ready list (step 4). *)
Definition evaluate (s : Sched) : Sched :=
  let ch := chosen s in
  let et := eligible_tasks s in
  let todo := filter (fun t => negb (memb t et)) ch in
  let losers := filter (fun t => negb (memb t ch)) et in
  {| pxTCBs := pxTCBs s;
     pxCurrentTCBs := place s ch (pxCurrentTCBs s) todo;
     xReadyTasks := filter (fun t => negb (memb t ch)) (xReadyTasks s) ++ losers;
     xDelayedTasks := xDelayedTasks s;
     xSuspendedTasks := xSuspendedTasks s;
     xTasksWaitingTermination := xTasksWaitingTermination s;
     xTickCount := xTickCount s;
     uxSchedulerSuspended := uxSchedulerSuspended s;
     xPendingOps := xPendingOps s |}.

(* ================================================================== *)
(** ** State-transition engine, scheduler lock and tick driver *)

(** Field updates of the scheduler aggregate. *)
Definition set_cores s c := mkSched (pxTCBs s) c (xReadyTasks s) (xDelayedTasks s)
  (xSuspendedTasks s) (xTasksWaitingTermination s) (xTickCount s) (uxSchedulerSuspended s) (xPendingOps s).
Definition set_ready s r := mkSched (pxTCBs s) (pxCurrentTCBs s) r (xDelayedTasks s)
  (xSuspendedTasks s) (xTasksWaitingTermination s) (xTickCount s) (uxSchedulerSuspended s) (xPendingOps s).
Definition set_tcbs s l := mkSched l (pxCurrentTCBs s) (xReadyTasks s) (xDelayedTasks s)
  (xSuspendedTasks s) (xTasksWaitingTermination s) (xTickCount s) (uxSchedulerSuspended s) (xPendingOps s).
Definition set_depth s d := mkSched (pxTCBs s) (pxCurrentTCBs s) (xReadyTasks s) (xDelayedTasks s)
  (xSuspendedTasks s) (xTasksWaitingTermination s) (xTickCount s) d (xPendingOps s).
Definition set_pending s p := mkSched (pxTCBs s) (pxCurrentTCBs s) (xReadyTasks s) (xDelayedTasks s)
  (xSuspendedTasks s) (xTasksWaitingTermination s) (xTickCount s) (uxSchedulerSuspended s) p.

Fixpoint upd_nth {A} (l : list A) (n : nat) (f : A -> A) : list A :=
  match l, n with
  | [], _ => []
  | x :: l', 0 => f x :: l'
  | x :: l', S n' => x :: upd_nth l' n' f
  end.

Definition update_tcb (s : Sched) (t : TaskHandle_t) (f : TCB_t -> TCB_t) : Sched :=
  set_tcbs s (upd_nth (pxTCBs s) t f).

(** Take a task out of every schedulable collection: its core (which then
    idles until the next evaluation), the ready list, the delayed list and
    the suspended list. *)
Definition remove_task (t : TaskHandle_t) (s : Sched) : Sched :=
  mkSched (pxTCBs s)
    (map (fun o => match o with Some u => if Nat.eqb u t then None else o | None => None end)
       (pxCurrentTCBs s))
    (filter (fun u => negb (Nat.eqb u t)) (xReadyTasks s))
    (filter (fun d => negb (Nat.eqb (fst d) t)) (xDelayedTasks s))
    (filter (fun u => negb (Nat.eqb u t)) (xSuspendedTasks s))
    (xTasksWaitingTermination s) (xTickCount s) (uxSchedulerSuspended s) (xPendingOps s).

Definition resolve (caller : TaskHandle_t) (h : option TaskHandle_t) : TaskHandle_t :=
  match h with None => caller | Some t => t end.

(** The configuration switch of spec §4.5 (the tests require it on). *)
Definition configUSE_TIME_SLICING : bool := true.

(** Time slicing (spec §4.1, §4.5): a running task whose level has another
    ready task, and whose preemption is not disabled, goes to the back of
    its level's queue, which rotates that level. *)
Definition time_slice (s : Sched) : Sched :=
  let slice := fun o => match o with
                        | Some t => negb (preempt_disabled s t)
                                    && existsb (fun u => Nat.eqb (prio s u) (prio s t)) (xReadyTasks s)
                        | None => false
                        end in
  set_ready (set_cores s (map (fun o => if slice o then None else o) (pxCurrentTCBs s)))
    (xReadyTasks s ++ running_tasks (filter slice (pxCurrentTCBs s))).

(** The tick (spec §4.5): advance the count, wake the delayed tasks whose
    [wake_tick] has arrived, then time-slice. *)
Definition increment_tick (s : Sched) : Sched :=
  let now := S (xTickCount s) in
  let woken := filter (fun d => Nat.leb (snd d) now) (xDelayedTasks s) in
  let s1 := mkSched (pxTCBs s) (pxCurrentTCBs s) (xReadyTasks s ++ map fst woken)
              (filter (fun d => negb (Nat.leb (snd d) now)) (xDelayedTasks s))
              (xSuspendedTasks s) (xTasksWaitingTermination s) now
              (uxSchedulerSuspended s) (xPendingOps s) in
  if configUSE_TIME_SLICING then time_slice s1 else s1.

(** Modelled from the spec: the effect of one operation on the bookkeeping
    state, without re-running the engine (spec §4.4, §4.5). *)
Definition apply_op (caller : TaskHandle_t) (o : op) (s : Sched) : Sched :=
  match o with
  | vTaskResume t =>
      if memb t (xSuspendedTasks s) then set_ready (remove_task t s) (xReadyTasks s ++ [t])
      else s
  | vTaskSuspend h =>
      let t := resolve caller h in
      let s' := remove_task t s in
      mkSched (pxTCBs s') (pxCurrentTCBs s') (xReadyTasks s') (xDelayedTasks s')
        (xSuspendedTasks s' ++ [t]) (xTasksWaitingTermination s') (xTickCount s')
        (uxSchedulerSuspended s') (xPendingOps s')
  | vTaskDelete h =>
      let t := resolve caller h in
      let s' := remove_task t s in
      mkSched (pxTCBs s') (pxCurrentTCBs s') (xReadyTasks s') (xDelayedTasks s')
        (xSuspendedTasks s') (xTasksWaitingTermination s' ++ [t]) (xTickCount s')
        (uxSchedulerSuspended s') (xPendingOps s')
  | vTaskPrioritySet h p =>
      let t := resolve caller h in
      let s' := update_tcb s t (fun x => mkTCB p p (xPreemptionDisable x)) in
      if memb t (xReadyTasks s')
      then set_ready s' (filter (fun u => negb (Nat.eqb u t)) (xReadyTasks s') ++ [t])
      else s'
  | vTaskDisablePreemption h =>
      update_tcb s (resolve caller h) (fun x => mkTCB (uxPriority x) (uxBasePriority x) true)
  | vTaskEnablePreemption h =>
      update_tcb s (resolve caller h) (fun x => mkTCB (uxPriority x) (uxBasePriority x) false)
  | vTaskDelay n =>
      let s' := remove_task caller s in
      mkSched (pxTCBs s') (pxCurrentTCBs s') (xReadyTasks s')
        (xDelayedTasks s' ++ [(caller, xTickCount s + n)])
        (xSuspendedTasks s') (xTasksWaitingTermination s') (xTickCount s')
        (uxSchedulerSuspended s') (xPendingOps s')
  | taskYIELD =>
      if memb caller (running_tasks (pxCurrentTCBs s))
      then set_ready (remove_task caller s) (xReadyTasks (remove_task caller s) ++ [caller])
      else s
  | xTaskIncrementTick => increment_tick s
  end.

(** Error taxonomy of spec §7 used here. *)
Inductive sched_error := InvalidHandle | ContractViolation.

Definition target (caller : TaskHandle_t) (o : op) : option TaskHandle_t :=
  match o with
  | vTaskResume t => Some t
  | vTaskSuspend h | vTaskDelete h | vTaskPrioritySet h _
  | vTaskDisablePreemption h | vTaskEnablePreemption h => Some (resolve caller h)
  | vTaskDelay _ | taskYIELD => Some caller
  | xTaskIncrementTick => None
  end.

Definition valid_handle (s : Sched) (t : TaskHandle_t) : bool :=
  Nat.ltb t (length (pxTCBs s)) && negb (memb t (xTasksWaitingTermination s)).

Definition op_valid (s : Sched) (caller : TaskHandle_t) (o : op) : bool :=
  match target caller o with Some t => valid_handle s t | None => true end.

(** Modelled from the spec: one request by task [caller] (spec §4.3, §5).
    An unknown or deleted handle is refused with [InvalidHandle]; while the
    scheduler is suspended the request is appended to the deferred log;
    otherwise it is applied and the engine re-evaluates synchronously. *)
Definition step (caller : TaskHandle_t) (o : op) (s : Sched) : Sched + sched_error :=
  if negb (op_valid s caller o) then inr InvalidHandle
  else if Nat.ltb 0 (uxSchedulerSuspended s)
  then inl (set_pending s (xPendingOps s ++ [(caller, o)]))
  else inl (evaluate (apply_op caller o s)).

(** Modelled from the spec: [suspend_all()], i.e. [vTaskSuspendAll]. *)
Definition vTaskSuspendAll (s : Sched) : Sched :=
  set_depth s (S (uxSchedulerSuspended s)).

(** Replay of the deferred log in arrival order; a request whose handle has
    become invalid in the meantime is dropped. *)
Definition replay (ops : list (TaskHandle_t * op)) (s : Sched) : Sched :=
  fold_left (fun s co => if op_valid s (fst co) (snd co) then apply_op (fst co) (snd co) s else s)
    ops s.

(** Modelled from the spec: [resume_all()], i.e. [xTaskResumeAll] (spec
    §4.3, §8): without a matching suspend it is a [ContractViolation]; from
    depth 1 it replays the log and runs the engine once; deeper, it only
    decrements. *)
Definition xTaskResumeAll (s : Sched) : Sched + sched_error :=
  match uxSchedulerSuspended s with
  | 0 => inr ContractViolation
  | 1 => inl (evaluate (replay (xPendingOps s) (set_pending (set_depth s 0) [])))
  | S d => inl (set_depth s d)
  end.

(* ================================================================== *)
(** ** Concrete configurations used by the claims below *)

Definition tcb_at (p : nat) : TCB_t := mkTCB p p false.

(** Two cores running tasks 0 (priority 1) and 1 (priority 2) while tasks
    2, 3, 4 (priorities 5, 9, 8) have just become ready. *)
Definition two_cores_three_ready : Sched :=
  mkSched [tcb_at 1; tcb_at 2; tcb_at 5; tcb_at 9; tcb_at 8] [Some 0; Some 1] [2; 3; 4]
    [] [] [] 0 0 [].


(* ================================================================== *)
(** ** Generic facts about the engine *)

From Stdlib Require Import Sorted Permutation.

Lemma memb_In t l : memb t l = true <-> In t l.
Proof.
  unfold memb. rewrite existsb_exists. split.
  - intros [x [Hx Heq]]. apply Nat.eqb_eq in Heq. subst. exact Hx.
  - intros H. exists t. split; [exact H | apply Nat.eqb_refl].
Qed.

Lemma memb_false t l : memb t l = false <-> ~ In t l.
Proof.
  rewrite <- memb_In. destruct (memb t l); split; congruence.
Qed.

Lemma running_tasks_In t cores : In t (running_tasks cores) <-> In (Some t) cores.
Proof.
  unfold running_tasks. rewrite in_flat_map. split.
  - intros [[u|] [Hin Ht]]; simpl in Ht; [destruct Ht as [<-|[]]; exact Hin | contradiction].
  - intros H. exists (Some t). split; [exact H | left; reflexivity].
Qed.

Definition prio_ge (s : Sched) (a b : TaskHandle_t) : Prop := prio s b <= prio s a.

Lemma insert_desc_In s t l x : In x (insert_desc s t l) <-> x = t \/ In x l.
Proof.
  induction l as [|u l IH]; simpl.
  - split; intros [H|H]; auto.
  - destruct (Nat.leb (prio s u) (prio s t)); simpl.
    + split; intros [H|H]; auto.
    + rewrite IH. split; intros [H|[H|H]]; auto.
Qed.

Lemma insert_desc_sorted s t l :
  StronglySorted (prio_ge s) l -> StronglySorted (prio_ge s) (insert_desc s t l).
Proof.
  induction l as [|u l IH]; simpl; intros Hs.
  - repeat constructor.
  - inversion Hs as [|? ? Hl Hall]; subst.
    destruct (Nat.leb (prio s u) (prio s t)) eqn:E.
    + apply Nat.leb_le in E. constructor; [exact Hs|].
      constructor; [exact E|].
      eapply Forall_impl; [|exact Hall]. unfold prio_ge. intros a Ha. lia.
    + apply Nat.leb_gt in E. constructor; [apply IH; exact Hl|].
      apply Forall_forall. intros x Hx. apply insert_desc_In in Hx as [->|Hx].
      * unfold prio_ge. lia.
      * rewrite Forall_forall in Hall. apply Hall, Hx.
Qed.

Lemma sort_desc_sorted s l : StronglySorted (prio_ge s) (sort_desc s l).
Proof.
  induction l as [|t l IH]; simpl; [constructor|]. apply insert_desc_sorted, IH.
Qed.

Lemma sort_desc_In s l x : In x (sort_desc s l) <-> In x l.
Proof.
  induction l as [|t l IH]; simpl; [tauto|]. rewrite insert_desc_In, IH.
  split; intros [H|H]; auto.
Qed.

Lemma strongly_sorted_app {A} (R : A -> A -> Prop) l1 l2 :
  StronglySorted R (l1 ++ l2) -> forall y x, In y l1 -> In x l2 -> R y x.
Proof.
  induction l1 as [|a l1 IH]; simpl; intros Hs y x Hy Hx; [contradiction|].
  inversion Hs as [|? ? Hl Hall]; subst.
  destruct Hy as [<-|Hy].
  - rewrite Forall_forall in Hall. apply Hall, in_or_app. right. exact Hx.
  - eapply IH; eassumption.
Qed.

(** Every candidate left out of [chosen] has at most the priority of every
    chosen task. *)
Lemma chosen_dominates s a b :
  In a (candidates s) -> ~ In a (chosen s) -> In b (chosen s) -> prio s a <= prio s b.
Proof.
  intros Ha Hna Hb. unfold chosen in *.
  set (L := sort_desc s (candidates s)) in *.
  assert (HaL : In a L) by (apply sort_desc_In; exact Ha).
  rewrite <- (firstn_skipn (eligible_count s) L) in HaL.
  apply in_app_or in HaL as [HaL|HaL]; [contradiction|].
  pose proof (sort_desc_sorted s (candidates s)) as Hs. fold L in Hs.
  rewrite <- (firstn_skipn (eligible_count s) L) in Hs.
  exact (strongly_sorted_app _ _ _ Hs b a Hb HaL).
Qed.

Lemma place_In s ch slots todo t :
  In (Some t) (place s ch slots todo) ->
  (In (Some t) slots /\ core_eligible s (Some t) = false) \/ In t ch \/ In t todo.
Proof.
  revert todo. induction slots as [|sl rest IH]; simpl; intros todo H; [contradiction|].
  destruct (core_eligible s sl) eqn:E.
  - destruct sl as [u|].
    + destruct (memb u ch) eqn:M.
      * destruct H as [H|H]; [inversion H; subst; right; left; apply memb_In, M|].
        destruct (IH _ H) as [[? ?]|?]; [left; split; auto|right; exact H0].
      * destruct todo as [|x todo']; destruct H as [H|H]; try discriminate.
        -- destruct (IH _ H) as [[? ?]|[?|[]]]; [left; split; auto|right; left; exact H0].
        -- inversion H; subst. right; right; left; reflexivity.
        -- destruct (IH _ H) as [[? ?]|[?|?]]; [left; split; auto|right; left; exact H0|right; right; right; exact H0].
    + destruct todo as [|x todo']; destruct H as [H|H]; try discriminate.
      * destruct (IH _ H) as [[? ?]|[?|[]]]; [left; split; auto|right; left; exact H0].
      * inversion H; subst. right; right; left; reflexivity.
      * destruct (IH _ H) as [[? ?]|[?|?]]; [left; split; auto|right; left; exact H0|right; right; right; exact H0].
  - destruct H as [H|H].
    + subst sl. left. split; [left; reflexivity|exact E].
    + destruct (IH _ H) as [[? ?]|?]; [left; split; auto|right; exact H0].
Qed.

Lemma evaluate_tcbs s : pxTCBs (evaluate s) = pxTCBs s.
Proof. reflexivity. Qed.

Lemma evaluate_prio s t : prio (evaluate s) t = prio s t.
Proof. reflexivity. Qed.

Lemma evaluate_preempt s t : preempt_disabled (evaluate s) t = preempt_disabled s t.
Proof. reflexivity. Qed.

Lemma state_running s t :
  eTaskGetState s t = eRunning <-> In (Some t) (pxCurrentTCBs s).
Proof.
  unfold eTaskGetState. rewrite <- running_tasks_In, <- memb_In.
  destruct (memb t (running_tasks (pxCurrentTCBs s)));
  repeat match goal with |- context [if ?b then _ else _] => destruct b end;
  intuition congruence.
Qed.

Lemma state_ready s t :
  eTaskGetState s t = eReady <-> ~ In (Some t) (pxCurrentTCBs s) /\ In t (xReadyTasks s).
Proof.
  unfold eTaskGetState. rewrite <- running_tasks_In, <- !memb_In.
  destruct (memb t (running_tasks (pxCurrentTCBs s)));
  destruct (memb t (xReadyTasks s));
  repeat match goal with |- context [if ?b then _ else _] => destruct b end;
  intuition congruence.
Qed.

(** The ordering every evaluation establishes: a task left Ready never
    outranks a Running task, unless that Running task has preemption
    disabled. *)
Lemma evaluate_priority_order s a b :
  eTaskGetState (evaluate s) a = eReady ->
  eTaskGetState (evaluate s) b = eRunning ->
  prio s b < prio s a ->
  preempt_disabled s b = true.
Proof.
  intros Ha Hb Hlt.
  apply state_ready in Ha as [_ Ha]. apply state_running in Hb.
  simpl in Ha, Hb.
  assert (HA : In a (candidates s) /\ ~ In a (chosen s)).
  { apply in_app_or in Ha as [Ha|Ha]; apply filter_In in Ha as [Hin Hm];
      apply Bool.negb_true_iff, memb_false in Hm; split; auto; unfold candidates;
      apply in_or_app; auto. }
  destruct HA as [HAc HAn].
  apply place_In in Hb as [[_ He]|[Hb|Hb]].
  - simpl in He. destruct (preempt_disabled s b); [reflexivity|discriminate].
  - pose proof (chosen_dominates s a b HAc HAn Hb). lia.
  - apply filter_In in Hb as [Hb _].
    pose proof (chosen_dominates s a b HAc HAn Hb). lia.
Qed.

(* ================================================================== *)
(** ** C1: priority correctness *)

(** C1 (as stated, refuted): "for A Ready and B Running, not
    preemption-disabled, with priority(A) > priority(B), an evaluation
    results in A Running and B Ready".  Two cores run priorities 1 and 2
    while tasks of priorities 5, 9 and 8 become ready: the evaluation gives
    both cores to the priority 9 and 8 tasks and leaves the priority 5 task
    Ready. *)
Lemma C1_counterexample :
  ~ (forall s a b,
        eTaskGetState s a = eReady -> eTaskGetState s b = eRunning ->
        prio s b < prio s a -> preempt_disabled s b = false ->
        eTaskGetState (evaluate s) a = eRunning /\ eTaskGetState (evaluate s) b = eReady).
Proof.
  intro H.
  destruct (H two_cores_three_ready 2 0 eq_refl eq_refl ltac:(vm_compute; lia) eq_refl)
    as [Ha _].
  vm_compute in Ha. discriminate.
Qed.

(** C1 (amended): after every core-assignment evaluation, no Ready task has
    a strictly higher priority than a Running task whose preemption is not
    disabled; so of a Ready A and a Running B with priority(A) >
    priority(B), the evaluation leaves A Running or B not Running. *)
Theorem C1_priority_order :
  forall s a b,
    eTaskGetState (evaluate s) b = eRunning ->
    prio (evaluate s) b < prio (evaluate s) a ->
    preempt_disabled (evaluate s) b = false ->
    eTaskGetState (evaluate s) a <> eReady.
Proof.
  intros s a b Hb Hlt Hnd Ha.
  rewrite evaluate_prio, evaluate_prio in Hlt. rewrite evaluate_preempt in Hnd.
  rewrite (evaluate_priority_order s a b Ha Hb Hlt) in Hnd. discriminate.
Qed.

(** Witness for [C1_priority_order]: after the evaluation of
    [two_cores_three_ready], task 4 (priority 8) runs and task 3 (priority
    9) is not Ready. *)
Lemma C1_priority_order_witness :
  eTaskGetState (evaluate two_cores_three_ready) 4 = eRunning /\
  prio (evaluate two_cores_three_ready) 4 < prio (evaluate two_cores_three_ready) 3 /\
  preempt_disabled (evaluate two_cores_three_ready) 4 = false /\
  eTaskGetState (evaluate two_cores_three_ready) 3 <> eReady.
Proof.
  split; [vm_compute; reflexivity|].
  split; [vm_compute; lia|].
  split; [vm_compute; reflexivity|].
  apply (C1_priority_order two_cores_three_ready 3 4);
    [vm_compute; reflexivity | vm_compute; lia | vm_compute; reflexivity].
Defined.

(* ================================================================== *)
(** ** Preemption-disabled tasks keep their core *)

Lemma place_keeps_ineligible s ch slots todo c t :
  nth_error slots c = Some (Some t) -> core_eligible s (Some t) = false ->
  nth_error (place s ch slots todo) c = Some (Some t).
Proof.
  revert c todo. induction slots as [|sl rest IH]; intros c todo Hn He; [destruct c; discriminate|].
  destruct c as [|c]; simpl in Hn.
  - inversion Hn; subst. cbn [place nth_error]. rewrite He. reflexivity.
  - cbn [place]. destruct (core_eligible s sl); [destruct sl as [u|]; [destruct (memb u ch)|]|];
      try (destruct todo); simpl; apply IH; assumption.
Qed.

(** [holds_core t c s]: task [t] occupies core [c], has its preemption
    disabled, and is not on the suspended list. *)
Definition holds_core (t : TaskHandle_t) (c : nat) (s : Sched) : Prop :=
  nth_error (pxCurrentTCBs s) c = Some (Some t) /\ preempt_disabled s t = true /\
  ~ In t (xSuspendedTasks s).

Lemma evaluate_holds_core t c s : holds_core t c s -> holds_core t c (evaluate s).
Proof.
  intros [Hn [Hp Hs]]. split; [|split; [exact Hp|exact Hs]].
  simpl. apply place_keeps_ineligible; [exact Hn|]. simpl. rewrite Hp. reflexivity.
Qed.

Lemma remove_task_holds_core u t c s :
  u <> t -> holds_core t c s -> holds_core t c (remove_task u s).
Proof.
  intros Hne [Hn [Hp Hs]]. unfold remove_task. split; [|split].
  - cbn [pxCurrentTCBs]. rewrite nth_error_map, Hn. simpl.
    destruct (Nat.eqb t u) eqn:E; [apply Nat.eqb_eq in E; congruence|reflexivity].
  - exact Hp.
  - cbn [xSuspendedTasks]. rewrite filter_In. intros [H _]. contradiction.
Qed.

Lemma upd_nth_nth_other {A} (l : list A) u f t d :
  t <> u -> nth t (upd_nth l u f) d = nth t l d.
Proof.
  revert u t. induction l as [|x l IH]; intros u t Hne; [reflexivity|].
  destruct u as [|u], t as [|t]; simpl; try reflexivity; [congruence|].
  apply IH. congruence.
Qed.

Lemma upd_nth_nth_same {A} (l : list A) u f d :
  u < length l -> nth u (upd_nth l u f) d = f (nth u l d).
Proof.
  revert u. induction l as [|x l IH]; intros u Hu; simpl in Hu; [lia|].
  destruct u as [|u]; simpl; [reflexivity|]. apply IH. lia.
Qed.

Lemma update_tcb_preempt u f t c s :
  (u = t -> forall x, xPreemptionDisable x = true -> xPreemptionDisable (f x) = true) ->
  holds_core t c s -> holds_core t c (update_tcb s u f).
Proof.
  intros Hf [Hn [Hp Hs]]. split; [exact Hn|split; [|exact Hs]].
  unfold preempt_disabled, tcb in *. simpl.
  destruct (Nat.eq_dec t u) as [->|Hne].
  - assert (Hlt : u < length (pxTCBs s)).
    { destruct (Nat.lt_ge_cases u (length (pxTCBs s))) as [H|H]; [exact H|].
      rewrite nth_overflow in Hp by exact H. discriminate. }
    rewrite upd_nth_nth_same by exact Hlt. apply Hf; auto.
  - rewrite upd_nth_nth_other by exact Hne. exact Hp.
Qed.

Lemma set_ready_holds_core t c s r : holds_core t c s -> holds_core t c (set_ready s r).
Proof. intros H. exact H. Qed.

Lemma time_slice_holds_core t c s : holds_core t c s -> holds_core t c (time_slice s).
Proof.
  intros [Hn [Hp Hs]]. split; [|split; [exact Hp|exact Hs]].
  unfold time_slice, set_ready, set_cores. cbn [pxCurrentTCBs].
  rewrite nth_error_map, Hn. cbn. rewrite Hp. reflexivity.
Qed.

Lemma increment_tick_holds_core t c s : holds_core t c s -> holds_core t c (increment_tick s).
Proof.
  intros H. unfold increment_tick. simpl. apply time_slice_holds_core. exact H.
Qed.

Lemma holds_core_ext t c s s' :
  holds_core t c s -> pxCurrentTCBs s' = pxCurrentTCBs s -> pxTCBs s' = pxTCBs s ->
  (In t (xSuspendedTasks s') -> In t (xSuspendedTasks s)) -> holds_core t c s'.
Proof.
  intros [Hn [Hp Hs]] Hc Ht Hsus. split; [rewrite Hc; exact Hn|split].
  - unfold preempt_disabled, tcb in *. rewrite Ht. exact Hp.
  - intros H. apply Hs, Hsus, H.
Qed.

(** The operations after which the model lets a task with preemption
    disabled lose its core: its own delay or yield, a suspend or delete
    naming it, and the clearing of its flag. *)
Definition releases_core (t caller : TaskHandle_t) (o : op) : bool :=
  match o with
  | vTaskSuspend h | vTaskDelete h | vTaskEnablePreemption h => Nat.eqb (resolve caller h) t
  | vTaskDelay _ | taskYIELD => Nat.eqb caller t
  | _ => false
  end.

Lemma apply_op_holds_core t c caller o s :
  releases_core t caller o = false -> holds_core t c s -> holds_core t c (apply_op caller o s).
Proof.
  intros Hr H. destruct o as [u|h|h|h p|h|h|n| |]; simpl in Hr |- *.
  - destruct (memb u (xSuspendedTasks s)) eqn:M; [|exact H].
    apply memb_In in M. apply set_ready_holds_core, remove_task_holds_core; [|exact H].
    intros ->. destruct H as [_ [_ Hs]]. contradiction.
  - apply Nat.eqb_neq in Hr. pose proof (remove_task_holds_core _ _ _ _ Hr H) as H'.
    apply (holds_core_ext _ _ _ _ H'); try reflexivity.
    cbn [xSuspendedTasks]. intros Hin. apply in_app_or in Hin as [Hin|[Hin|[]]]; [exact Hin|congruence].
  - apply Nat.eqb_neq in Hr. pose proof (remove_task_holds_core _ _ _ _ Hr H) as H'.
    apply (holds_core_ext _ _ _ _ H'); try reflexivity. auto.
  - assert (H' : holds_core t c (update_tcb s (resolve caller h)
                   (fun x => mkTCB p p (xPreemptionDisable x)))).
    { apply update_tcb_preempt; [|exact H]. intros _ x Hx. exact Hx. }
    destruct (memb _ _); [apply set_ready_holds_core|]; exact H'.
  - apply update_tcb_preempt; [|exact H]. intros _ x _. reflexivity.
  - apply Nat.eqb_neq in Hr. apply update_tcb_preempt; [|exact H]. intros E. congruence.
  - apply Nat.eqb_neq in Hr. pose proof (remove_task_holds_core _ _ _ _ Hr H) as H'.
    apply (holds_core_ext _ _ _ _ H'); try reflexivity. auto.
  - apply Nat.eqb_neq in Hr.
    destruct (memb caller _); [|exact H].
    apply set_ready_holds_core, remove_task_holds_core; [exact Hr|exact H].
  - apply increment_tick_holds_core. exact H.
Qed.

Lemma replay_holds_core t c ops s :
  forallb (fun co => negb (releases_core t (fst co) (snd co))) ops = true ->
  holds_core t c s -> holds_core t c (replay ops s).
Proof.
  unfold replay. revert s. induction ops as [|[caller o] ops IH]; intros s Hall H; [exact H|].
  simpl in Hall |- *. apply andb_true_iff in Hall as [Ho Hall].
  apply IH; [exact Hall|]. destruct (op_valid s caller o); [|exact H].
  apply apply_op_holds_core; [apply negb_true_iff, Ho|exact H].
Qed.

(* ================================================================== *)
(** ** C2: preemption-disable exclusivity *)

(** The disable_preemption test with two cores: T2 (priority 3) runs on
    core 0 with its preemption disabled, T0 and T1 (priorities 5 and 4) are
    suspended. *)
Definition preemption_disabled_start : Sched :=
  mkSched [tcb_at 5; tcb_at 4; mkTCB 3 3 true] [Some 2; None] [] [] [0; 1] [] 0 0 [].

(** The same system once T2 has resumed T0 and T1: T0 runs on core 1, T1
    waits. *)
Definition preemption_disabled_resumed : Sched :=
  mkSched [tcb_at 5; tcb_at 4; mkTCB 3 3 true] [Some 2; Some 0] [1] [] [] [] 0 0 [].

(** The ways the claim lists for such a task to lose its core: it yields,
    blocks (delay or suspend of itself) or deletes itself, or its flag is
    cleared. *)
Definition claimed_release (t caller : TaskHandle_t) (o : op) : bool :=
  match o with
  | taskYIELD | vTaskDelay _ => Nat.eqb caller t
  | vTaskSuspend h | vTaskDelete h => Nat.eqb caller t && Nat.eqb (resolve caller h) t
  | vTaskEnablePreemption h => Nat.eqb (resolve caller h) t
  | _ => false
  end.

(** C2 (as stated, refuted): "T keeps its core until it voluntarily yields,
    blocks or deletes itself, or the flag is cleared".  In
    [preemption_disabled_resumed], T0 on core 1 calls [vTaskSuspend] on T2's
    handle: T2 leaves core 0 although it did none of these. *)
Lemma C2_counterexample :
  ~ (forall s t c caller o s',
        holds_core t c s -> claimed_release t caller o = false ->
        step caller o s = inl s' -> nth_error (pxCurrentTCBs s') c = Some (Some t)).
Proof.
  intro H.
  assert (Hh : holds_core 2 0 preemption_disabled_resumed).
  { split; [reflexivity|split; [reflexivity|simpl; tauto]]. }
  specialize (H _ 2 0 0 (vTaskSuspend (Some 2)) _ Hh eq_refl eq_refl).
  vm_compute in H. discriminate.
Qed.

(** C2 (amended): a Running task whose preemption is disabled keeps its
    core through every core-assignment evaluation, whatever tasks become
    Ready, and through every request other than its own delay or yield, a
    suspend or delete naming it (itself through [NULL], or another task
    through its handle), or the clearing of its flag; this includes the
    replay of the deferred log by [xTaskResumeAll]. *)
Theorem C2_preemption_disabled_keeps_core :
  forall s t c,
    holds_core t c s ->
    holds_core t c (evaluate s) /\
    (forall caller o s', releases_core t caller o = false ->
       step caller o s = inl s' -> holds_core t c s') /\
    (forall s', forallb (fun co => negb (releases_core t (fst co) (snd co))) (xPendingOps s) = true ->
       xTaskResumeAll s = inl s' -> holds_core t c s').
Proof.
  intros s t c H. split; [apply evaluate_holds_core, H|split].
  - intros caller o s' Hr Hs. unfold step in Hs.
    destruct (op_valid s caller o); [|discriminate]. simpl in Hs.
    destruct (Nat.ltb 0 (uxSchedulerSuspended s)); inversion Hs; subst.
    + apply (holds_core_ext _ _ _ _ H); auto.
    + apply evaluate_holds_core, apply_op_holds_core; assumption.
  - intros s' Hall Hs. unfold xTaskResumeAll in Hs.
    destruct (uxSchedulerSuspended s) as [|[|d]]; inversion Hs; subst.
    + apply evaluate_holds_core, replay_holds_core; [exact Hall|].
      apply (holds_core_ext _ _ _ _ H); auto.
    + apply (holds_core_ext _ _ _ _ H); auto.
Qed.

(** Witness for [C2_preemption_disabled_keeps_core]: in the test's start
    state T2 keeps core 0 when it resumes T0 (its first [vTaskResume]). *)
Lemma C2_preemption_disabled_keeps_core_witness :
  holds_core 2 0 preemption_disabled_start /\
  exists s', step 2 (vTaskResume 0) preemption_disabled_start = inl s' /\ holds_core 2 0 s'.
Proof.
  assert (Hh : holds_core 2 0 preemption_disabled_start).
  { split; [reflexivity|split; [reflexivity|simpl; intros [H|[H|[]]]; discriminate]]. }
  split; [exact Hh|].
  eexists. split; [reflexivity|].
  apply (proj1 (proj2 (C2_preemption_disabled_keeps_core preemption_disabled_start 2 0 Hh))
           2 (vTaskResume 0)); reflexivity.
Defined.

(* ================================================================== *)
(** ** Scheduler lock: events, runs and the suspension window *)

(** What a core can do to the scheduler: a task request, or the
    [vTaskSuspendAll] / [xTaskResumeAll] pair. *)
Inductive event :=
| ETask (caller : TaskHandle_t) (o : op)
| ESuspendAll
| EResumeAll.

Definition sys_step (e : event) (s : Sched) : Sched + sched_error :=
  match e with
  | ETask caller o => step caller o s
  | ESuspendAll => inl (vTaskSuspendAll s)
  | EResumeAll => xTaskResumeAll s
  end.

(** A run of events; a refused request leaves the state as it was. *)
Fixpoint run (es : list event) (s : Sched) : Sched :=
  match es with
  | [] => s
  | e :: es' => run es' (match sys_step e s with inl s' => s' | inr _ => s end)
  end.

Lemma apply_op_lock c o s :
  uxSchedulerSuspended (apply_op c o s) = uxSchedulerSuspended s /\
  xPendingOps (apply_op c o s) = xPendingOps s.
Proof.
  destruct o; simpl;
    repeat match goal with |- context [if ?b then _ else _] => destruct b end;
    split; reflexivity.
Qed.

Lemma replay_lock ops s :
  uxSchedulerSuspended (replay ops s) = uxSchedulerSuspended s /\
  xPendingOps (replay ops s) = xPendingOps s.
Proof.
  unfold replay. revert s. induction ops as [|[c o] ops IH]; intros s; [split; reflexivity|].
  simpl. destruct (IH (if op_valid s c o then apply_op c o s else s)) as [H1 H2].
  rewrite H1, H2. destruct (op_valid s c o); [apply apply_op_lock|split; reflexivity].
Qed.

(** What the core-assignment engine and [eTaskGetState] read. *)
Definition sched_view (s : Sched) :=
  (pxTCBs s, pxCurrentTCBs s, xReadyTasks s, xDelayedTasks s, xSuspendedTasks s,
   xTasksWaitingTermination s).

Lemma state_of_view s s' t : sched_view s' = sched_view s -> eTaskGetState s' t = eTaskGetState s t.
Proof.
  unfold sched_view, eTaskGetState. intros H. inversion H as [[H1 H2 H3 H4 H5 H6]].
  rewrite H2, H3, H4, H5. reflexivity.
Qed.

Lemma sys_step_in_window e s s' :
  0 < uxSchedulerSuspended s -> sys_step e s = inl s' -> 0 < uxSchedulerSuspended s' ->
  sched_view s' = sched_view s.
Proof.
  intros Hd Hs Hd'. destruct e as [caller o| |]; simpl in Hs.
  - unfold step in Hs. destruct (op_valid s caller o); [|discriminate].
    simpl in Hs. apply Nat.ltb_lt in Hd. rewrite Hd in Hs. inversion Hs; reflexivity.
  - inversion Hs; reflexivity.
  - unfold xTaskResumeAll in Hs. destruct (uxSchedulerSuspended s) as [|[|d]] eqn:E.
    + lia.
    + inversion Hs; subst. simpl in Hd'.
      rewrite (proj1 (replay_lock _ _)) in Hd'. simpl in Hd'. lia.
    + inversion Hs; reflexivity.
Qed.

(* ================================================================== *)
(** ** C3: scheduler-suspension exclusion *)

(** The suspend_scheduler test on two cores once T0 has called
    [vTaskSuspendAll]: T0 (priority 2) on core 0, a priority 4 task on core
    1, T1 (priority 1) ready. *)
Definition suspend_window_start : Sched :=
  mkSched [tcb_at 2; tcb_at 1; tcb_at 4] [Some 0; Some 2] [1] [] [] [] 0 1 [].

(** T0 raises T1 above itself inside the window. *)
Definition raise_inside_window : list event := [ETask 0 (vTaskPrioritySet (Some 1) 3)].

(** C3: as long as [suspend_depth] stays above 0, whatever is requested
    (task operations, priority raises, nested suspend/resume pairs), no
    core-assignment decision is recomputed: the core-run-table, the ready
    list, the TCBs (priorities included) and the state of every task are
    those at the start of the window. *)
Theorem C3_suspended_window_frozen :
  forall es s,
    (forall k, 0 < uxSchedulerSuspended (run (firstn k es) s)) ->
    pxCurrentTCBs (run es s) = pxCurrentTCBs s /\
    xReadyTasks (run es s) = xReadyTasks s /\
    pxTCBs (run es s) = pxTCBs s /\
    (forall t, eTaskGetState (run es s) t = eTaskGetState s t).
Proof.
  assert (Hview : forall es s, (forall k, 0 < uxSchedulerSuspended (run (firstn k es) s)) ->
                  sched_view (run es s) = sched_view s).
  { induction es as [|e es IH]; intros s Hk; [reflexivity|].
    simpl. set (s1 := match sys_step e s with inl s' => s' | inr _ => s end).
    assert (H0 : 0 < uxSchedulerSuspended s) by exact (Hk 0).
    assert (H1 : 0 < uxSchedulerSuspended s1) by exact (Hk 1).
    assert (E1 : sched_view s1 = sched_view s).
    { unfold s1 in *. destruct (sys_step e s) eqn:E; [|reflexivity].
      eapply sys_step_in_window; eassumption. }
    rewrite IH; [exact E1|]. intros k. exact (Hk (S k)). }
  intros es s Hk. pose proof (Hview es s Hk) as H.
  split; [|split; [|split]].
  - unfold sched_view in H. inversion H. reflexivity.
  - unfold sched_view in H. inversion H. reflexivity.
  - unfold sched_view in H. inversion H. reflexivity.
  - intros t. apply state_of_view, H.
Qed.

(** Witness for [C3_suspended_window_frozen]: T0's priority raise inside
    the window leaves T1 Ready. *)
Lemma C3_suspended_window_frozen_witness :
  (forall k, 0 < uxSchedulerSuspended (run (firstn k raise_inside_window) suspend_window_start)) /\
  eTaskGetState (run raise_inside_window suspend_window_start) 1 = eReady.
Proof.
  assert (Hk : forall k, 0 < uxSchedulerSuspended (run (firstn k raise_inside_window) suspend_window_start)).
  { intros [|k]; [vm_compute; lia|]. unfold raise_inside_window.
    cbn [firstn]. rewrite firstn_nil. vm_compute. lia. }
  split; [exact Hk|].
  rewrite (proj2 (proj2 (proj2 (C3_suspended_window_frozen _ _ Hk))) 1).
  vm_compute. reflexivity.
Defined.

(* ================================================================== *)
(** ** C4: inline preemption on resume *)

(** C4: when [xTaskResumeAll] takes [suspend_depth] from 1 to 0 it replays
    the deferred log and runs the engine within the same call, so in the
    state it returns no Ready task outranks a Running task whose preemption
    is enabled: a task raised during the window that displaces the caller
    is already Running (and the caller Ready) when the call returns. *)
Theorem C4_resume_all_preempts_inline :
  forall s s',
    uxSchedulerSuspended s = 1 -> xTaskResumeAll s = inl s' ->
    s' = evaluate (replay (xPendingOps s) (set_pending (set_depth s 0) [])) /\
    uxSchedulerSuspended s' = 0 /\ xPendingOps s' = [] /\
    (forall a b, eTaskGetState s' a = eReady -> eTaskGetState s' b = eRunning ->
       prio s' b < prio s' a -> preempt_disabled s' b = true).
Proof.
  intros s s' Hd Hr. unfold xTaskResumeAll in Hr. rewrite Hd in Hr.
  inversion Hr as [Hs']. clear Hr.
  set (r := replay (xPendingOps s) (set_pending (set_depth s 0) [])) in *.
  destruct (replay_lock (xPendingOps s) (set_pending (set_depth s 0) [])) as [L1 L2].
  fold r in L1, L2.
  split; [reflexivity|split; [|split]].
  - simpl. rewrite L1. reflexivity.
  - simpl. rewrite L2. reflexivity.
  - intros a b Ha Hb Hlt.
    rewrite evaluate_prio, evaluate_prio in Hlt. rewrite evaluate_preempt.
    exact (evaluate_priority_order r a b Ha Hb Hlt).
Qed.

(** Witness for [C4_resume_all_preempts_inline]: after T0 raised T1 to
    priority 3 inside the window, [xTaskResumeAll] returns with T1 Running
    and T0 Ready. *)
Lemma C4_resume_all_preempts_inline_witness :
  exists s', xTaskResumeAll (run raise_inside_window suspend_window_start) = inl s' /\
    uxSchedulerSuspended s' = 0 /\
    eTaskGetState s' 1 = eRunning /\ eTaskGetState s' 0 = eReady.
Proof.
  eexists. split; [reflexivity|].
  split; [apply (C4_resume_all_preempts_inline (run raise_inside_window suspend_window_start));
          reflexivity|].
  split; vm_compute; reflexivity.
Defined.

(* ================================================================== *)
(** ** C7: resume without a matching suspend *)

(** C7: [xTaskResumeAll] at [suspend_depth = 0] is refused with
    [ContractViolation] (the state is left as it was), and every accepted
    call starts from a positive depth and lowers it by exactly one, so the
    depth never underflows. *)
Theorem C7_resume_without_suspend :
  forall s,
    (uxSchedulerSuspended s = 0 -> xTaskResumeAll s = inr ContractViolation) /\
    (forall s', xTaskResumeAll s = inl s' ->
       0 < uxSchedulerSuspended s /\ uxSchedulerSuspended s' = uxSchedulerSuspended s - 1).
Proof.
  intros s. split.
  - intros H. unfold xTaskResumeAll. rewrite H. reflexivity.
  - intros s' Hr. unfold xTaskResumeAll in Hr.
    destruct (uxSchedulerSuspended s) as [|[|d]] eqn:E; inversion Hr; subst.
    + split; [lia|]. simpl. rewrite (proj1 (replay_lock _ _)). reflexivity.
    + split; [lia|]. simpl. lia.
Qed.

(** Witness for [C7_resume_without_suspend]: [two_cores_three_ready] has
    depth 0, so resuming there is a [ContractViolation]. *)
Lemma C7_resume_without_suspend_witness :
  uxSchedulerSuspended two_cores_three_ready = 0 /\
  xTaskResumeAll two_cores_three_ready = inr ContractViolation.
Proof.
  split; [reflexivity|].
  apply (proj1 (C7_resume_without_suspend two_cores_three_ready)). reflexivity.
Defined.

(* ================================================================== *)
(** ** C8: clearing the flag by handle, and the disable_preemption test *)

(** C8: at the end of the disable_preemption test (two cores, T2 keeping
    core 0 with preemption disabled, T0 on core 1, T1 ready), the test
    calls [vTaskDisablePreemption] on T2's handle under the comment "Enable
    preemption of the lowest priority task": T2 stays Running, where the
    test expects [eReady]; the clearing call [vTaskEnablePreemption] on the
    same handle does give [eReady]. *)
Theorem C8_test_disables_instead_of_enabling :
  (exists s', step 0 (vTaskDisablePreemption (Some 2)) preemption_disabled_resumed = inl s' /\
              eTaskGetState s' 2 = eRunning) /\
  (exists s', step 0 (vTaskEnablePreemption (Some 2)) preemption_disabled_resumed = inl s' /\
              eTaskGetState s' 2 = eReady).
Proof.
  split; eexists; split; try reflexivity; vm_compute; reflexivity.
Qed.

(* ================================================================== *)
(** ** C9: [NULL] denotes the calling task *)





(* ================================================================== *)
(** ** C10: elapsed-tick arithmetic in the tests *)

(** The timeout checks of the tests,
    [( xTaskGetTickCount() - xStartTick ) >= pdMS_TO_TICKS( TEST_TIMEOUT_MS )],
    subtract two [TickType_t] readings of [w] bits.  By C's usual
    arithmetic conversions, a [TickType_t] narrower than [int] (32 bits on
    the targets) is promoted to [int] and subtracted without wrap-around;
    otherwise the subtraction is unsigned, modulo [2^w]. *)
Module TickArithmetic.








End TickArithmetic.

(* ================================================================== *)
(** ** Every chosen task gets a core *)

Definition slot_free (ch : list TaskHandle_t) (sl : option TaskHandle_t) : bool :=
  match sl with None => true | Some u => negb (memb u ch) end.

Definition free_count (s : Sched) (ch : list TaskHandle_t) (slots : list (option TaskHandle_t)) : nat :=
  length (filter (slot_free ch) (filter (core_eligible s) slots)).

Lemma place_all s ch slots todo x :
  length todo <= free_count s ch slots -> In x todo -> In (Some x) (place s ch slots todo).
Proof.
  unfold free_count. revert todo.
  induction slots as [|sl rest IH]; intros todo Hlen Hx.
  - destruct todo; simpl in *; [contradiction|lia].
  - cbn [place filter] in *. destruct (core_eligible s sl) eqn:E.
    + destruct sl as [u|]; cbn [slot_free filter] in Hlen.
      * destruct (memb u ch) eqn:M; cbn [negb] in Hlen.
        -- right. apply IH; assumption.
        -- destruct todo as [|y todo']; [contradiction|].
           destruct Hx as [->|Hx]; [left; reflexivity|].
           right. apply IH; [simpl in Hlen; lia|exact Hx].
      * destruct todo as [|y todo']; [contradiction|].
        destruct Hx as [->|Hx]; [left; reflexivity|].
        right. apply IH; [simpl in Hlen; lia|exact Hx].
    + right. apply IH; assumption.
Qed.

Lemma place_keeps_chosen s ch slots todo x :
  In (Some x) slots -> core_eligible s (Some x) = true -> In x ch ->
  In (Some x) (place s ch slots todo).
Proof.
  revert todo. induction slots as [|sl rest IH]; intros todo Hin He Hch; [contradiction|].
  destruct Hin as [->|Hin].
  - cbn [place]. rewrite He. apply memb_In in Hch. rewrite Hch. left. reflexivity.
  - cbn [place]. destruct (core_eligible s sl); [destruct sl as [u|]; [destruct (memb u ch)|]|];
      try destruct todo; right; apply IH; assumption.
Qed.

Lemma free_count_split s ch slots :
  free_count s ch slots + length (filter (fun u => memb u ch) (running_tasks (filter (core_eligible s) slots)))
  = length (filter (core_eligible s) slots).
Proof.
  unfold free_count. generalize (filter (core_eligible s) slots) as E.
  induction E as [|[u|] E IH]; simpl; [reflexivity| |lia].
  destruct (memb u ch); simpl; lia.
Qed.

Lemma evaluate_chosen_running s x :
  NoDup (eligible_tasks s) -> In x (chosen s) -> In (Some x) (pxCurrentTCBs (evaluate s)).
Proof.
  intros Hnd Hx. simpl.
  destruct (memb x (eligible_tasks s)) eqn:M.
  - apply memb_In in M. unfold eligible_tasks in M.
    apply running_tasks_In, filter_In in M as [Hin He].
    apply place_keeps_chosen; assumption.
  - apply place_all; [|apply filter_In; split; [exact Hx|rewrite M; reflexivity]].
    set (ch := chosen s). set (et := eligible_tasks s).
    pose proof (free_count_split s ch (pxCurrentTCBs s)) as Hfc.
    change (running_tasks (filter (core_eligible s) (pxCurrentTCBs s))) with et in Hfc.
    pose proof (filter_length (fun u => memb u et) ch) as Hch.
    assert (Hle : length ch <= length (filter (core_eligible s) (pxCurrentTCBs s))).
    { unfold ch, chosen. apply firstn_le_length. }
    assert (Hinc : length (filter (fun u => memb u ch) et) <= length (filter (fun u => memb u et) ch)).
    { apply NoDup_incl_length; [apply NoDup_filter, Hnd|].
      intros u Hu. apply filter_In in Hu as [Hu1 Hu2]. apply filter_In. split.
      - apply memb_In, Hu2.
      - apply memb_In, Hu1. }
    lia.
Qed.

(* ================================================================== *)
(** ** Counting facts about the engine *)






Lemma In_firstn_of {A} n (l : list A) x : In x (firstn n l) -> In x l.
Proof.
  intros H. rewrite <- (firstn_skipn n l). apply in_or_app. left. exact H.
Qed.




Lemma evaluate_core_chosen s u :
  In (Some u) (pxCurrentTCBs (evaluate s)) -> core_eligible s (Some u) = true -> In u (chosen s).
Proof.
  intros H He. simpl in H. apply place_In in H as [[_ Hne]|[H|H]].
  - congruence.
  - exact H.
  - apply filter_In in H as [H _]. exact H.
Qed.







(* ================================================================== *)
(** ** C6: round-robin among N+1 equal-priority tasks on N cores *)

Section RoundRobin.

Variable s : Sched.
Variable ts : list TaskHandle_t.
Variable p : nat.

Hypothesis Hcores : 0 < length (pxCurrentTCBs s).
Hypothesis Hlen : length ts = S (length (pxCurrentTCBs s)).
Hypothesis Hts_nd : NoDup ts.
Hypothesis Hnd : NoDup (running_tasks (pxCurrentTCBs s) ++ xReadyTasks s).
Hypothesis Hts : forall t, In t ts ->
  prio s t = p /\ preempt_disabled s t = false /\
  (In (Some t) (pxCurrentTCBs s) \/ In t (xReadyTasks s)).
Hypothesis Hothers : forall u, In u (running_tasks (pxCurrentTCBs s) ++ xReadyTasks s) ->
  ~ In u ts -> prio s u < p.
Hypothesis Hflags : forall u, In (Some u) (pxCurrentTCBs s) -> preempt_disabled s u = false.












Hypothesis Hdel : forall d, In d (xDelayedTasks s) -> prio s (fst d) < p.
Hypothesis Hdepth : uxSchedulerSuspended s = 0.


End RoundRobin.



(* ================================================================== *)
(** ** The demo's pseudo random number generator (cellular demo main.c) *)

Module DemoRand.

Open Scope Z_scope.

(** On the Win32 simulator port [UBaseType_t] is a 32-bit [unsigned long],
    so the generator state [ulNextRand] wraps modulo 2^32. *)
Definition UBASE_WIDTH : Z := 32.
Definition to_ubase (x : Z) : Z := x mod 2 ^ UBASE_WIDTH.

Definition ulMultiplier : Z := 22695477.   (* 0x015a4e35UL *)
Definition ulIncrement : Z := 1.

(** [uxRand]: returns the new value and the new [ulNextRand]. *)
Definition uxRand (ulNextRand : Z) : Z * Z :=
  let ulNextRand' := to_ubase (ulMultiplier * ulNextRand + ulIncrement) in
  (Z.land (Z.shiftr ulNextRand' 16) 32767, ulNextRand').   (* & 0x7fffUL *)

(** [prvSRand]: the new [ulNextRand]. *)
Definition prvSRand (ulSeed : Z) : Z := to_ubase ulSeed.



(** The values returned by [n] successive calls of [uxRand]. *)
Fixpoint rand_outputs (n : nat) (ulNextRand : Z) : list Z :=
  match n with
  | O => []
  | S n' => let (r, st) := uxRand ulNextRand in r :: rand_outputs n' st
  end.

Lemma uxRand_value st :
  fst (uxRand st) = (to_ubase (ulMultiplier * st + ulIncrement) / 2 ^ 16) mod 2 ^ 15.
Proof.
  unfold uxRand. cbn [fst]. change 32767 with (Z.ones 15).
  rewrite Z.land_ones, Z.shiftr_div_pow2; lia.
Qed.

Lemma high_bits_low31 a b :
  a mod 2 ^ 31 = b mod 2 ^ 31 -> (a / 2 ^ 16) mod 2 ^ 15 = (b / 2 ^ 16) mod 2 ^ 15.
Proof.
  intros H.
  pose proof (Z.rem_mul_r a (2 ^ 16) (2 ^ 15)) as Ha.
  pose proof (Z.rem_mul_r b (2 ^ 16) (2 ^ 15)) as Hb.
  change (2 ^ 16 * 2 ^ 15) with (2 ^ 31) in Ha, Hb.
  assert (Hl : a mod 2 ^ 16 = b mod 2 ^ 16).
  { rewrite <- (Z.mod_mod_divide a (2 ^ 31) (2 ^ 16)), <- (Z.mod_mod_divide b (2 ^ 31) (2 ^ 16)).
    - rewrite H. reflexivity.
    - exists (2 ^ 15). reflexivity.
    - exists (2 ^ 15). reflexivity. }
  assert (2 ^ 16 * ((a / 2 ^ 16) mod 2 ^ 15) = 2 ^ 16 * ((b / 2 ^ 16) mod 2 ^ 15)) by lia.
  lia.
Qed.

Lemma to_ubase_low31 x : to_ubase x mod 2 ^ 31 = x mod 2 ^ 31.
Proof. unfold to_ubase, UBASE_WIDTH. apply Z.mod_mod_divide. exists 2. reflexivity. Qed.

Lemma next_low31 x y :
  x mod 2 ^ 31 = y mod 2 ^ 31 ->
  to_ubase (ulMultiplier * x + ulIncrement) mod 2 ^ 31 =
  to_ubase (ulMultiplier * y + ulIncrement) mod 2 ^ 31.
Proof.
  intros H. rewrite !to_ubase_low31.
  rewrite (Z.add_mod (ulMultiplier * x)), (Z.add_mod (ulMultiplier * y)) by lia.
  rewrite (Z.mul_mod ulMultiplier x), (Z.mul_mod ulMultiplier y), H by lia. reflexivity.
Qed.

(** An inverse of [ulMultiplier] modulo 2^32. *)
Definition ulMultiplierInverse : Z := 690295837.

Lemma multiplier_inverse : (ulMultiplierInverse * ulMultiplier) mod 2 ^ 32 = 1.
Proof. vm_compute. reflexivity. Qed.


(** X2: bit 31 of the generator state never influences an output: two
    states equal modulo 2^31 give the same sequence of values, so the
    generator has at most 2^31 distinct output sequences. *)
Theorem X2_rand_outputs_low31 (n : nat) (x y : Z) :
  x mod 2 ^ 31 = y mod 2 ^ 31 -> rand_outputs n x = rand_outputs n y.
Proof.
  revert x y. induction n as [|n IH]; intros x y H; [reflexivity|].
  cbn [rand_outputs]. pose proof (uxRand_value x) as Hx. pose proof (uxRand_value y) as Hy.
  unfold uxRand in *. cbn [fst] in Hx, Hy. rewrite Hx, Hy.
  f_equal.
  - apply high_bits_low31, next_low31, H.
  - apply IH, next_low31, H.
Qed.

Lemma X2_rand_outputs_low31_witness :
  0 mod 2 ^ 31 = (2 ^ 31) mod 2 ^ 31 /\ rand_outputs 3 0 = rand_outputs 3 (2 ^ 31).
Proof.
  split; [vm_compute; reflexivity|].
  apply (X2_rand_outputs_low31 3 0 (2 ^ 31)). vm_compute. reflexivity.
Defined.

(** X3: the state update of [uxRand] is a bijection of the 32-bit states:
    two different states never step to the same next state. *)
Theorem X3_rand_step_injective (x y : Z) :
  0 <= x < 2 ^ 32 -> 0 <= y < 2 ^ 32 -> snd (uxRand x) = snd (uxRand y) -> x = y.
Proof.
  intros Hx Hy H. unfold uxRand, to_ubase, UBASE_WIDTH in H. cbn [snd] in H.
  change (2 ^ 32) with 4294967296 in *.
  assert (Hd : (ulMultiplier * (x - y)) mod 4294967296 = 0).
  { replace (ulMultiplier * (x - y)) with ((ulMultiplier * x + ulIncrement) - (ulMultiplier * y + ulIncrement)) by ring.
    rewrite Zminus_mod, H, Z.sub_diag. reflexivity. }
  assert (Hm : (x - y) mod 4294967296 = 0).
  { replace (x - y) with ((ulMultiplierInverse * ulMultiplier) * (x - y) - (ulMultiplierInverse * ulMultiplier - 1) * (x - y)) by ring.
    rewrite Zminus_mod, <- Z.mul_assoc, Z.mul_mod, Hd by lia.
    rewrite (Z.mul_mod (ulMultiplierInverse * ulMultiplier - 1)) by lia.
    replace ((ulMultiplierInverse * ulMultiplier - 1) mod 4294967296) with 0
      by (vm_compute; reflexivity).
    reflexivity. }
  apply Z.mod_divide in Hm as [k Hk]; [|lia].
  assert (k = 0) by nia. subst k. lia.
Qed.

Lemma X3_rand_step_injective_witness :
  snd (uxRand 0) = snd (uxRand 0) /\ 0 = 0.
Proof.
  split; [reflexivity|]. apply (X3_rand_step_injective 0 0); [lia|lia|reflexivity].
Defined.

End DemoRand.

(* ================================================================== *)
(** ** schedule_highest_priority.c: [prvFindTaskIdx] and [prvEverRunningTask] *)

Module HighestPriorityTest.

(** A task handle as the test stores it: [None] is [NULL]. *)
Definition handle_eqb (a b : option TaskHandle_t) : bool :=
  match a, b with
  | Some x, Some y => Nat.eqb x y
  | None, None => true
  | _, _ => false
  end.

Fixpoint find_idx_from (hs : list (option TaskHandle_t)) (h : option TaskHandle_t) (i : Z) : Z :=
  match hs with
  | [] => (-1)%Z
  | x :: hs' => if handle_eqb h x then i else find_idx_from hs' h (i + 1)%Z
  end.

(** [prvFindTaskIdx]: the loop runs over the [configNUMBER_OF_CORES]
    entries of [xTaskHanldes] and stops at the first match. *)
Definition prvFindTaskIdx (xTaskHanldes : list (option TaskHandle_t)) (xCurrentTaskHandle : option TaskHandle_t) : Z :=
  find_idx_from xTaskHanldes xCurrentTaskHandle 0.

Definition eTaskState_eqb (a b : eTaskState) : bool :=
  match a, b with
  | eRunning, eRunning | eReady, eReady | eBlocked, eBlocked
  | eSuspended, eSuspended | eDeleted, eDeleted => true
  | _, _ => false
  end.

(** The checking loop of [prvEverRunningTask] over the first [n] handles: a
    [NULL] handle fails [TEST_ASSERT_TRUE], a task not Running fails
    [TEST_ASSERT_EQUAL_INT]; a failed assertion ends the task. *)
Fixpoint check_higher (hs : list (option TaskHandle_t)) (s : Sched) (n : nat) : bool :=
  match n, hs with
  | O, _ => true
  | S _, [] => true
  | S n', None :: _ => false
  | S n', Some a :: hs' => eTaskState_eqb eRunning (eTaskGetState s a) && check_higher hs' s n'
  end.

(** [prvEverRunningTask] run by task [t] in state [s]: whether all its
    assertions pass, and whether it sets [xIsTestFinished] (reached only
    when they pass). A negative index runs no iteration. *)
Definition prvEverRunningTask (xTaskHanldes : list (option TaskHandle_t)) (s : Sched) (t : TaskHandle_t) : bool * bool :=
  let currentTaskIdx := prvFindTaskIdx xTaskHanldes (Some t) in
  let ok := check_higher xTaskHanldes s (Z.to_nat currentTaskIdx) in
  (ok, ok && Z.eqb currentTaskIdx (Z.of_nat (length xTaskHanldes) - 1)).

(** The test's set-up on two cores: T0 and T1 created with priorities 9
    and 8 and not yet placed. *)
Definition highest_priority_setup : Sched :=
  mkSched [tcb_at 9; tcb_at 8] [None; None] [0; 1] [] [] [] 0 0 [].

Lemma handle_eqb_spec a b : handle_eqb a b = true <-> a = b.
Proof.
  destruct a as [x|], b as [y|]; simpl; try (split; congruence).
  rewrite Nat.eqb_eq. split; congruence.
Qed.

Lemma find_idx_from_spec hs h i :
  (find_idx_from hs h i = (-1)%Z /\ ~ In h hs /\ (0 <= i)%Z) \/
  (exists k, find_idx_from hs h i = (i + Z.of_nat k)%Z /\ nth_error hs k = Some h /\
             forall j, (j < k)%nat -> nth_error hs j <> Some h) \/
  (i < 0)%Z.
Proof.
  revert i. induction hs as [|x hs IH]; intros i.
  - destruct (Z.ltb_spec i 0); [right; right; exact H|left; repeat split; auto; lia].
  - simpl. destruct (handle_eqb h x) eqn:E.
    + apply handle_eqb_spec in E. subst x. right; left. exists O. repeat split.
      * lia.
      * intros j Hj. lia.
    + destruct (IH (i + 1)%Z) as [[H1 [H2 H3]]|[[k [H1 [H2 H3]]]|H]].
      * destruct (Z.ltb_spec i 0); [right; right; exact H|left]. split; [exact H1|split; [|exact H]].
        intros [Hx|Hx]; [subst; rewrite (proj2 (handle_eqb_spec _ _) eq_refl) in E; discriminate|contradiction].
      * right; left. exists (S k). split; [rewrite H1; lia|]. split; [exact H2|].
        intros [|j] Hj; simpl.
        -- intros Hx. injection Hx as ->. rewrite (proj2 (handle_eqb_spec _ _) eq_refl) in E. discriminate.
        -- apply H3. lia.
      * right; right. lia.
Qed.

Lemma prvFindTaskIdx_spec hs h :
  (prvFindTaskIdx hs h = (-1)%Z /\ ~ In h hs) \/
  (exists k, prvFindTaskIdx hs h = Z.of_nat k /\ nth_error hs k = Some h /\
             forall j, (j < k)%nat -> nth_error hs j <> Some h).
Proof.
  unfold prvFindTaskIdx. destruct (find_idx_from_spec hs h 0) as [[H1 [H2 _]]|[[k [H1 H2]]|H]].
  - left. auto.
  - right. exists k. rewrite H1. split; [lia|exact H2].
  - lia.
Qed.

(** X4: [prvFindTaskIdx] returns -1 exactly when the handle is not in
    [xTaskHanldes], and otherwise the index of its first occurrence. *)
Theorem X4_find_task_idx (hs : list (option TaskHandle_t)) (h : option TaskHandle_t) :
  (prvFindTaskIdx hs h = (-1)%Z <-> ~ In h hs) /\
  (forall k, prvFindTaskIdx hs h = Z.of_nat k <->
     nth_error hs k = Some h /\ forall j, (j < k)%nat -> nth_error hs j <> Some h).
Proof.
  assert (Hfirst : forall k k', nth_error hs k = Some h -> (forall j, (j < k)%nat -> nth_error hs j <> Some h) ->
                   nth_error hs k' = Some h -> (forall j, (j < k')%nat -> nth_error hs j <> Some h) -> k = k').
  { intros k k' Hk Hb Hk' Hb'. destruct (Nat.lt_trichotomy k k') as [Hl|[Hl|Hl]];
      [exfalso; exact (Hb' k Hl Hk)|exact Hl|exfalso; exact (Hb k' Hl Hk')]. }
  destruct (prvFindTaskIdx_spec hs h) as [[H1 H2]|[k [H1 [H2 H3]]]].
  - split; [tauto|]. intros k. rewrite H1. split; [lia|].
    intros [Hk _]. exfalso. apply H2. eapply nth_error_In. exact Hk.
  - split.
    + rewrite H1. split; [lia|]. intros Hn. exfalso. apply Hn. eapply nth_error_In. exact H2.
    + intros k'. rewrite H1. split.
      * intros He. assert (k = k') as <- by lia. auto.
      * intros [Hk' Hb']. f_equal. exact (Hfirst k k' H2 H3 Hk' Hb').
Qed.

Lemma check_higher_forallb ts s n :
  check_higher (map Some ts) s n = forallb (fun a => eTaskState_eqb eRunning (eTaskGetState s a)) (firstn n ts).
Proof.
  revert n. induction ts as [|a ts IH]; intros [|n]; simpl; auto.
  rewrite IH. reflexivity.
Qed.

Lemma eTaskState_eqb_running st : eTaskState_eqb eRunning st = true <-> st = eRunning.
Proof. destruct st; simpl; split; congruence. Qed.

Lemma NoDup_running_filter f l :
  NoDup (running_tasks l) -> NoDup (running_tasks (filter f l)).
Proof.
  induction l as [|[u|] l IH]; simpl; intros H; [constructor| |].
  - inversion H as [|? ? Hn Hnd]; subst. destruct (f (Some u)); simpl; [|apply IH, Hnd].
    constructor; [|apply IH, Hnd].
    intros Hu. apply running_tasks_In, filter_In in Hu as [Hu _]. apply Hn, running_tasks_In, Hu.
  - destruct (f None); simpl; apply IH, H.
Qed.

Lemma evaluate_ready_of_candidate s a :
  In a (candidates s) -> ~ In a (chosen s) -> In a (xReadyTasks (evaluate s)).
Proof.
  intros Hc Hn. unfold evaluate. cbn [xReadyTasks].
  assert (Hm : negb (memb a (chosen s)) = true) by (apply Bool.negb_true_iff, memb_false, Hn).
  unfold candidates in Hc. apply in_app_or in Hc as [Hc|Hc]; apply in_or_app;
    [right|left]; apply filter_In; auto.
Qed.

(** X5: in the state left by an evaluation of the core-assignment engine,
    when the test's tasks have strictly descending priorities, none has
    preemption disabled, each is Ready or on a core, and no task occupies
    two cores, then whichever of them runs [prvEverRunningTask] passes all
    its assertions, and sets [xIsTestFinished] exactly when it is the last
    one. *)
Theorem X5_ever_running_checks_pass (s : Sched) (ts : list TaskHandle_t) (k : nat) (t : TaskHandle_t) :
  NoDup ts ->
  StronglySorted (fun a b => prio s b < prio s a) ts ->
  (forall a, In a ts -> preempt_disabled s a = false /\
     (In (Some a) (pxCurrentTCBs s) \/ In a (xReadyTasks s))) ->
  NoDup (running_tasks (pxCurrentTCBs s)) ->
  nth_error ts k = Some t ->
  eTaskGetState (evaluate s) t = eRunning ->
  prvEverRunningTask (map Some ts) (evaluate s) t = (true, Nat.eqb (S k) (length ts)).
Proof.
  intros Hnd Hsorted Hts Hcores Hk Ht.
  assert (Hidx : prvFindTaskIdx (map Some ts) (Some t) = Z.of_nat k).
  { destruct (prvFindTaskIdx_spec (map Some ts) (Some t)) as [[_ Hn]|[k' [H1 [H2 H3]]]].
    - exfalso. apply Hn. apply in_map. eapply nth_error_In. exact Hk.
    - rewrite H1. f_equal. rewrite nth_error_map in H2.
      destruct (nth_error ts k') as [t'|] eqn:E; simpl in H2; [injection H2 as ->|discriminate].
      apply (proj1 (NoDup_nth_error ts) Hnd k' k); [apply nth_error_Some; congruence|congruence]. }
  assert (Hlen : (k < length ts)%nat) by (apply nth_error_Some; congruence).
  assert (Hnde : NoDup (eligible_tasks s)) by (apply NoDup_running_filter, Hcores).
  assert (Hok : check_higher (map Some ts) (evaluate s) k = true).
  { rewrite check_higher_forallb. apply forallb_forall. intros a Ha.
    apply eTaskState_eqb_running.
    assert (Hgt : prio s t < prio s a).
    { pose proof (nth_error_split ts k Hk) as [l1 [l2 [Heq Hl1]]].
      assert (Hf : firstn k ts = l1) by (rewrite Heq, <- Hl1, firstn_app, Nat.sub_diag, firstn_all; simpl; apply app_nil_r).
      rewrite Hf in Ha. rewrite Heq in Hsorted.
      apply (strongly_sorted_app _ l1 (t :: l2) Hsorted a t Ha). left. reflexivity. }
    assert (HaTs : In a ts) by (apply (In_firstn_of k), Ha).
    destruct (Hts a HaTs) as [Hfa Hwhere].
    destruct (Hts t (nth_error_In _ _ Hk)) as [Hft _].
    assert (Hcand : In a (candidates s)).
    { unfold candidates. apply in_or_app. destruct Hwhere as [Hw|Hw]; [left|right; exact Hw].
      unfold eligible_tasks. apply running_tasks_In, filter_In. split; [exact Hw|]. simpl. rewrite Hfa. reflexivity. }
    destruct (memb a (chosen s)) eqn:M.
    - apply state_running, evaluate_chosen_running; [exact Hnde|apply memb_In, M].
    - apply memb_false in M. exfalso.
      destruct (memb a (running_tasks (pxCurrentTCBs (evaluate s)))) eqn:On.
      + apply memb_In, running_tasks_In in On.
        apply evaluate_core_chosen in On; [contradiction|]. simpl. rewrite Hfa. reflexivity.
      + apply memb_false in On. assert (Hoff : ~ In (Some a) (pxCurrentTCBs (evaluate s)))
          by (rewrite <- running_tasks_In; exact On).
        assert (Hr : eTaskGetState (evaluate s) a = eReady).
        { apply state_ready. split; [exact Hoff|]. apply evaluate_ready_of_candidate; assumption. }
        pose proof (evaluate_priority_order s a t Hr Ht Hgt). congruence. }
  unfold prvEverRunningTask. rewrite Hidx, Nat2Z.id, Hok. cbn [andb]. f_equal.
  rewrite length_map. destruct (Nat.eqb_spec (S k) (length ts)); apply Z.eqb_eq || apply Z.eqb_neq; lia.
Qed.

Lemma X5_ever_running_checks_pass_witness :
  prvEverRunningTask [Some 0; Some 1] (evaluate highest_priority_setup) 1 = (true, true).
Proof.
  apply (X5_ever_running_checks_pass highest_priority_setup [0; 1] 1 1).
  - repeat constructor; simpl; intuition discriminate.
  - repeat constructor; vm_compute; lia.
  - intros a Ha. simpl in Ha. destruct Ha as [<-|[<-|[]]]; split; try reflexivity; right; simpl; tauto.
  - constructor.
  - reflexivity.
  - vm_compute. reflexivity.
Defined.

End HighestPriorityTest.

(* ================================================================== *)
(** ** only_one_task_enter_suspendall.c: [loopIncCounter] *)

Module SuspendAllCounter.

Open Scope Z_scope.









End SuspendAllCounter.

(* ================================================================== *)
(** ** Cellular demo main.c: [FRTest_ThreadCreate], [ThreadWrapper] and
       [FRTest_ThreadTimedJoin] on the C heap *)

Module ThreadJoin.

(** The C heap, as far as the [TaskParam_t] blocks go: the live blocks and
    the next fresh address. *)
Record heap := mkHeap { live : list nat; next_addr : nat }.

Inductive heap_error := UseAfterFree (p : nat) | DoubleFree (p : nat).

(** A memory event on a [TaskParam_t] block: a read or write of one of its
    fields (the semaphore of [xSemaphoreCreateBinaryStatic] lives in its
    [joinMutexBuffer] field, so a give or take is one too), or [free]. *)
Inductive mem_event := MUse (p : nat) | MFree (p : nat).

Definition exec_event (h : heap) (e : mem_event) : heap + heap_error :=
  match e with
  | MUse p => if memb p (live h) then inl h else inr (UseAfterFree p)
  | MFree p =>
      if memb p (live h) then inl (mkHeap (filter (fun q => negb (Nat.eqb q p)) (live h)) (next_addr h))
      else inr (DoubleFree p)
  end.

Fixpoint exec (h : heap) (es : list mem_event) : heap + heap_error :=
  match es with
  | [] => inl h
  | e :: es' => match exec_event h e with inl h' => exec h' es' | inr err => inr err end
  end.

(** [FRTest_ThreadCreate]: [malloc] returns a fresh block (the asserts on
    [malloc], the semaphore and [xTaskCreate] are taken to hold); the
    fields and the semaphore are set up in it. Returns the handle, i.e. the
    block, and the heap. *)
Definition FRTest_ThreadCreate (h : heap) : nat * heap :=
  (next_addr h, mkHeap (next_addr h :: live h) (S (next_addr h))).

(** [ThreadWrapper] run on the block [p]: the condition reads [threadFunc]
    and, when it is not [NULL], [joinMutexHandle] (never [NULL] after
    [FRTest_ThreadCreate]); the body reads [threadFunc] and [pParam], calls
    the thread function (whose own memory is not tracked) and gives the
    semaphore; [free(pParam)] follows whatever the condition gave;
    [vTaskDelete(NULL)] touches no [TaskParam_t]. *)
Definition ThreadWrapper (p : nat) (threadFunc_not_null : bool) : list mem_event :=
  if threadFunc_not_null then [MUse p; MUse p; MUse p; MUse p; MFree p]
  else [MUse p; MFree p].

(** [FRTest_ThreadTimedJoin] on [p] when [xSemaphoreTake] returns
    [xReturned]: the assert reads [joinMutexHandle], the take reads it and
    the semaphore; on a failed take, [configASSERT(false)] enters
    [vAssertCalled], which loops while [ulBlockVariable] is 0, so nothing
    more happens; otherwise the block is freed and 0 returned. *)
Definition FRTest_ThreadTimedJoin (p : nat) (xReturned_is_pdTRUE : bool) : list mem_event * option Z :=
  if xReturned_is_pdTRUE then ([MUse p; MUse p; MFree p], Some 0%Z)
  else ([MUse p; MUse p], None).

(** The executions of two threads: every interleaving of their events. *)
Inductive interleave {A} : list A -> list A -> list A -> Prop :=
  | il_nil : interleave [] [] []
  | il_left x l1 l2 l : interleave l1 l2 l -> interleave (x :: l1) l2 (x :: l)
  | il_right x l1 l2 l : interleave l1 l2 l -> interleave l1 (x :: l2) (x :: l).

Definition count_frees (p : nat) (es : list mem_event) : nat :=
  length (filter (fun e => match e with MFree q => Nat.eqb q p | MUse _ => false end) es).

Definition only_on (p : nat) (es : list mem_event) : Prop :=
  forall e, In e es -> e = MUse p \/ e = MFree p.

Lemma interleave_count p l1 l2 l :
  interleave l1 l2 l -> count_frees p l = count_frees p l1 + count_frees p l2.
Proof.
  unfold count_frees. induction 1; simpl; [reflexivity| |];
    destruct x as [q|q]; simpl; try destruct (Nat.eqb q p); simpl; lia.
Qed.

Lemma interleave_only_on p l1 l2 l :
  interleave l1 l2 l -> only_on p l1 -> only_on p l2 -> only_on p l.
Proof.
  induction 1; intros H1 H2 e He; [destruct He|..];
    destruct He as [<-|He];
    try (apply H1; left; reflexivity); try (apply H2; left; reflexivity).
  - apply IHinterleave; [intros e' He'; apply H1; right; exact He'|exact H2|exact He].
  - apply IHinterleave; [exact H1|intros e' He'; apply H2; right; exact He'|exact He].
Qed.

(** Without an error, a run on one block frees it at most once, and not at
    all when it starts dead. *)
Lemma exec_ok_frees p h es h' :
  only_on p es -> exec h es = inl h' ->
  count_frees p es <= if memb p (live h) then 1 else 0.
Proof.
  revert h. induction es as [|e es IH]; intros h Hon Hex;
    [unfold count_frees; cbn [filter length]; destruct (memb p (live h)); lia|].
  assert (Hon' : only_on p es) by (intros x Hx; apply Hon; right; exact Hx).
  destruct (Hon e (or_introl eq_refl)) as [-> | ->]; simpl in Hex.
  - destruct (memb p (live h)) eqn:M; [|discriminate].
    unfold count_frees. simpl. specialize (IH h Hon' Hex). rewrite M in IH. exact IH.
  - destruct (memb p (live h)) eqn:M; [|discriminate].
    specialize (IH _ Hon' Hex). cbn [live] in IH.
    assert (Hdead : memb p (filter (fun q => negb (Nat.eqb q p)) (live h)) = false).
    { apply memb_false. intros Hin. apply filter_In in Hin as [_ Hin].
      rewrite Nat.eqb_refl in Hin. discriminate. }
    rewrite Hdead in IH. unfold count_frees in *. simpl. rewrite Nat.eqb_refl. simpl. lia.
Qed.

Lemma exec_error_on p h es err :
  only_on p es -> exec h es = inr err -> err = DoubleFree p \/ err = UseAfterFree p.
Proof.
  revert h. induction es as [|e es IH]; intros h Hon Hex; [discriminate|].
  assert (Hon' : only_on p es) by (intros x Hx; apply Hon; right; exact Hx).
  destruct (Hon e (or_introl eq_refl)) as [-> | ->]; simpl in Hex;
    destruct (memb p (live h)); try (injection Hex as <-; auto); eapply IH; eassumption.
Qed.

(** X7: once [FRTest_ThreadTimedJoin]'s take succeeds, every interleaving
    of it with the [ThreadWrapper] of the same handle frees the
    [TaskParam_t] block twice or uses it after it was freed: both
    functions free it unconditionally. *)
Theorem X7_join_double_free (h : heap) (threadFunc_not_null : bool) (es : list mem_event) :
  let (p, h1) := FRTest_ThreadCreate h in
  interleave (ThreadWrapper p threadFunc_not_null) (fst (FRTest_ThreadTimedJoin p true)) es ->
  exists err, exec h1 es = inr err /\ (err = DoubleFree p \/ err = UseAfterFree p).
Proof.
  unfold FRTest_ThreadCreate. set (p := next_addr h). set (h1 := mkHeap (p :: live h) (S p)).
  intros Hil.
  assert (Hon : only_on p es).
  { eapply interleave_only_on; [exact Hil| |];
      [destruct threadFunc_not_null|]; intros e He; simpl in He;
      repeat (destruct He as [<-|He]; [auto|]); destruct He. }
  destruct (exec h1 es) as [h'|err] eqn:E.
  - exfalso. pose proof (exec_ok_frees p h1 es h' Hon E) as Hle.
    rewrite (interleave_count p _ _ _ Hil) in Hle.
    cbn [live h1 memb existsb] in Hle. rewrite Nat.eqb_refl in Hle. simpl in Hle.
    destruct threadFunc_not_null; unfold count_frees in Hle; simpl in Hle; rewrite Nat.eqb_refl in Hle; simpl in Hle; lia.
  - exists err. split; [reflexivity|]. exact (exec_error_on p h1 es err Hon E).
Qed.

(** The join waits in [xSemaphoreTake] while the wrapper runs and frees
    the block; the take then returns [pdTRUE] and the join frees it again. *)
Lemma X7_join_double_free_witness :
  exists err, exec (mkHeap [0] 1) [MUse 0; MUse 0; MUse 0; MUse 0; MUse 0; MUse 0; MFree 0; MFree 0] = inr err /\
              (err = DoubleFree 0 \/ err = UseAfterFree 0).
Proof.
  apply (X7_join_double_free (mkHeap [] 0) true
           [MUse 0; MUse 0; MUse 0; MUse 0; MUse 0; MUse 0; MFree 0; MFree 0]).
  simpl. apply il_right, il_right, il_left, il_left, il_left, il_left, il_left, il_right, il_nil.
Defined.

End ThreadJoin.
